(** * Detection evaluation (fiftyone/utils/eval/detection.py)

    A shallow embedding of the evaluation orchestration and match
    aggregation code of [fiftyone.utils.eval.detection], with the
    properties its specification states about the tally reduction, the
    configuration resolution, the evaluation loop and the clearing of a
    recorded evaluation. *)

From stdpp Require Import base option list strings pretty gmap.
From Stdlib Require Import ZArith Lia.

Local Open Scope Z_scope.

(** ** Python values and exceptions *)

(** Field and attribute values, as the document store holds them. *)
#[warnings="-register-all"] Inductive value :=
| VNone
| VBool (b : bool)
| VInt (z : Z)
| VStr (s : string)
| VList (l : list value)
| VDict (d : list (string * value)).

(** The exceptions the module can raise or let through. *)
Inductive exn :=
| ValueError (msg : string)
| KeyError (key : string)
| NotImplementedError (msg : string)
| NotFoundError (key : string).

(** A computation that returns or raises. *)
Inductive result (A : Type) :=
| Ok (a : A)
| Raise (e : exn).
Arguments Ok {A} a.
Arguments Raise {A} e.

#[global] Instance result_ret : MRet result := fun A a => Ok a.
#[global] Instance result_bind : MBind result := fun A B f m =>
  match m with
  | Ok a => f a
  | Raise e => Raise e
  end.

Definition raised {A} (r : result A) : Prop := ∃ e, r = Raise e.

(** ** Matches and the tally reduction *)

(** A match is a pair [(gt_label, pred_label)]; [None] is Python's [None]. *)
Definition Match : Type := option string * option string.

(** One iteration of the loop body of [_tally_matches]. *)
Definition tally_step (acc : Z * Z * Z) (m : Match) : Z * Z * Z :=
  let '(tp, fp, fn) := acc in
  let '(gt_label, pred_label) := m in
  match gt_label with
  | None => (tp, fp + 1, fn)
  | Some _ =>
      match pred_label with
      | None => (tp, fp, fn + 1)
      | Some _ => (tp + 1, fp, fn)
      end
  end.

(** The loop of [_tally_matches], started from given counters. *)
Definition tally_from (acc : Z * Z * Z) (matches : list Match) : Z * Z * Z :=
  foldl tally_step acc matches.

Definition _tally_matches (matches : list Match) : Z * Z * Z :=
  tally_from (0, 0, 0) matches.

(** Componentwise sum of two triples of counters. *)
Definition add3 (a b : Z * Z * Z) : Z * Z * Z :=
  let '(a1, a2, a3) := a in
  let '(b1, b2, b3) := b in
  (a1 + b1, a2 + b2, a3 + b3).

(** What a single pair adds to the counters. *)
Definition contribution (m : Match) : Z * Z * Z := tally_step (0, 0, 0) m.

(** The scenario of the specification. *)
Definition scenario_matches : list Match :=
  [ (Some "cat", Some "cat"); (Some "dog", None);
    (None, Some "cat"); (Some "cat", Some "dog") ].


(** ** Evaluation configurations *)

(** An [EvaluationConfig] instance: its class and its attribute dictionary. *)
Record Config := {
  cfg_class : string;
  cfg_attrs : gmap string value;
}.

(** [setattr(config, k, v)] on a plain Python object: the attribute
    dictionary takes the binding, whatever the name. *)
Definition setattr (config : Config) (k : string) (v : value) : Config :=
  {| cfg_class := cfg_class config; cfg_attrs := <[k := v]> (cfg_attrs config) |}.


(** [DetectionEvaluationMethod.evaluate_image(gts, preds, eval_key)]: the
    matches of one image.  The two label objects are passed by reference,
    so the method also hands back the state it leaves them in. *)
Definition EvalMethod : Type :=
  value → value → option string → result (list Match * value * value).

(** The base class [DetectionEvaluationMethod]: no matching policy. *)
Definition DetectionEvaluationMethod_evaluate_image : EvalMethod :=
  fun _ _ _ => Raise (NotImplementedError "subclass must implement evaluate_image").

(** What the module imports from files that are not part of this
    development: constants of [fiftyone.core], the COCO configuration of
    [.coco], the [build] method of [EvaluationConfig] and the constructor
    of [ClassificationResults]. *)
Class Imports := {
  VIDEO : string;
  _FRAMES_PREFIX : string;
  COCOEvaluationConfig : Config;
  build : Config → result EvalMethod;
  Results : Type;
  ClassificationResults_init :
    list (option string) → list (option string) → value →
    option (list string) → string → result Results;
}.

Definition list_detection_methods : list string := ["coco"].

(** ** The results object *)

(** Heads and tails of the argument tuples of [zip]: [None] as soon as one
    of them is exhausted. *)
Fixpoint heads {A} (rows : list (list A)) : option (list A) :=
  match rows with
  | [] => Some []
  | [] :: _ => None
  | (x :: _) :: rest => hs ← heads rest; Some (x :: hs)
  end.

Definition tails {A} (rows : list (list A)) : list (list A) := map (drop 1) rows.

(** [zip(first, *rest)]: one tuple per position, up to the shortest argument. *)
Fixpoint zip_rows {A} (first : list A) (rest : list (list A)) : list (list A) :=
  match first with
  | [] => []
  | x :: xs =>
      match heads rest with
      | None => []
      | Some hs => (x :: hs) :: zip_rows xs (tails rest)
      end
  end.

(** [zip] applied to the unpacked [rows]; with no argument at all,
    [zip()] yields nothing. *)
Definition zip_star {A} (rows : list (list A)) : list (list A) :=
  match rows with
  | [] => []
  | first :: rest => zip_rows first rest
  end.

(** The message of [ValueError] when a sequence of [n] items is unpacked
    into two names. *)
Definition digit_string (n : nat) : string := pretty (N.of_nat n).

(** [a, b = xs]. *)
Definition unpack2 {A} (xs : list A) : result (A * A) :=
  match xs with
  | [a; b] => Ok (a, b)
  | [] | [_] =>
      Raise (ValueError ("not enough values to unpack (expected 2, got "
                         +:+ digit_string (length xs) +:+ ")"))
  | _ => Raise (ValueError "too many values to unpack (expected 2)")
  end.

Definition match_tuple (m : Match) : list (option string) := [m.1; m.2].

(** ** The sample collection *)

(** Modelled from the spec: the sample store of [fiftyone.core] is not part
    of this development.  A sample holds its fields by name (embedded
    fields by their dotted path) and, for videos, its frames in order. *)
Record Sample := {
  sample_fields : gmap string value;
  sample_frames : list (gmap string value);
}.

(** The persisted metadata of a named evaluation:
    [(pred_field, gt_field, config)]. *)
Abbreviation EvalInfo := (string * string * Config)%type.

(** Modelled from the spec: a collection has a media type, its samples and
    the EvalInfo entries recorded on it, by evaluation key. *)
Record Collection := {
  media_type : string;
  docs : list Sample;
  evaluations : gmap string EvalInfo;
}.

(** The calls the module makes on the store, in the order it makes them. *)
Inductive event :=
| EvFetch (i : nat)
| EvSave (i : nat)
| EvRecord (eval_key : string)
| EvDeleteSampleFields (fields : list string)
| EvDeleteFrameFields (fields : list string)
| EvDeleteEvalInfo (eval_key : string).

Record World := {
  coll : Collection;
  log : list event;
}.

(** Stateful code that may raise: the world it leaves is returned in both
    cases, since nothing is rolled back when an exception escapes. *)
Definition M (A : Type) : Type := World → result A * World.

#[global] Instance M_ret : MRet M := fun A a w => (Ok a, w).
#[global] Instance M_bind : MBind M := fun A B f m w =>
  match m w with
  | (Ok a, w') => f a w'
  | (Raise e, w') => (Raise e, w')
  end.

(** A computation without effect on the store. *)
Definition lift {A} (r : result A) : M A := fun w => (r, w).

Definition get_collection : M Collection := fun w => (Ok (coll w), w).

Definition emit (e : event) (w : World) : World :=
  {| coll := coll w; log := log w ++ [e] |}.

Definition set_docs (f : list Sample → list Sample) (w : World) : World :=
  {| coll := {| media_type := media_type (coll w);
                docs := f (docs (coll w));
                evaluations := evaluations (coll w) |};
     log := log w |}.

Definition set_evaluations (f : gmap string EvalInfo → gmap string EvalInfo)
    (w : World) : World :=
  {| coll := {| media_type := media_type (coll w);
                docs := docs (coll w);
                evaluations := f (evaluations (coll w)) |};
     log := log w |}.

(** [obj[name]] on a sample or a frame: the value of the field, and
    [KeyError] when it has none. *)
Definition getitem (d : gmap string value) (name : string) : result value :=
  match d !! name with
  | Some v => Ok v
  | None => Raise (KeyError name)
  end.

(** [sample[name] = v]. *)
Definition setitem (sample : Sample) (name : string) (v : value) : Sample :=
  {| sample_fields := <[name := v]> (sample_fields sample);
     sample_frames := sample_frames sample |}.

Definition keep_fields (fields : list string) (d : gmap string value) :
    gmap string value :=
  filter (fun kv => kv.1 ∈ fields) d.

(** Modelled from the spec: [select_fields] of the store restricts every
    sample (and its frames) to the named fields. *)
Definition select_fields (fields : list string) (sample : Sample) : Sample :=
  {| sample_fields := keep_fields fields (sample_fields sample);
     sample_frames := keep_fields fields <$> sample_frames sample |}.

(** What [save] leaves in the store for a sample: the fields held in memory
    replace the stored ones, the fields that were not loaded stay. *)
Definition stored (mem persisted : Sample) : Sample :=
  {| sample_fields := sample_fields mem ∪ sample_fields persisted;
     sample_frames := zip_with (∪) (sample_frames mem) (sample_frames persisted) |}.

(** Modelled from the spec: [sample.save()] of the store, for the sample
    at position [i] of the collection: an independent write, committed at
    once. *)
Definition save (i : nat) (mem : Sample) : M () := fun w =>
  (Ok (), emit (EvSave i) (set_docs (alter (stored mem) i) w)).

Definition delete_keys (fields : list string) (d : gmap string value) :
    gmap string value :=
  foldl (fun d f => delete f d) d fields.

(** Modelled from the spec: [delete_sample_fields] of the store removes the
    named fields from every sample. *)
Definition delete_sample_fields (fields : list string) : M () := fun w =>
  (Ok (),
   emit (EvDeleteSampleFields fields)
     (set_docs (fmap (fun s =>
        {| sample_fields := delete_keys fields (sample_fields s);
           sample_frames := sample_frames s |})) w)).

(** Modelled from the spec: [delete_frame_fields] of the store removes the
    named fields from every frame of every sample. *)
Definition delete_frame_fields (fields : list string) : M () := fun w =>
  (Ok (),
   emit (EvDeleteFrameFields fields)
     (set_docs (fmap (fun s =>
        {| sample_fields := sample_fields s;
           sample_frames := delete_keys fields <$> sample_frames s |})) w)).

(** Modelled from the spec: [_get_eval_info] of [.base] returns the tuple
    stored under the key and fails with a not-found error if the key was
    never recorded or was already cleared. *)
Definition _get_eval_info (eval_key : string) : M EvalInfo := fun w =>
  match evaluations (coll w) !! eval_key with
  | Some info => (Ok info, w)
  | None => (Raise (NotFoundError eval_key), w)
  end.

(** Modelled from the spec: [_record_eval_info] of [.base] stores the tuple
    under the key and silently overwrites an entry already there. *)
Definition _record_eval_info (eval_key pred_field gt_field : string)
    (config : Config) : M () := fun w =>
  (Ok (),
   emit (EvRecord eval_key)
     (set_evaluations (insert eval_key (pred_field, gt_field, config)) w)).

(** Modelled from the spec: [_delete_eval_info] of [.base] removes the
    metadata entry only. *)
Definition _delete_eval_info (eval_key : string) : M () := fun w =>
  (Ok (), emit (EvDeleteEvalInfo eval_key) (set_evaluations (delete eval_key) w)).

(** ["%s_tp" % eval_key] and its siblings. *)
Definition tp_field (eval_key : string) : string := eval_key +:+ "_tp".
Definition fp_field (eval_key : string) : string := eval_key +:+ "_fp".
Definition fn_field (eval_key : string) : string := eval_key +:+ "_fn".

(** ["%s.detections.%s_id" % (field, eval_key)] and its sibling. *)
Definition id_field (field eval_key : string) : string :=
  field +:+ ".detections." +:+ eval_key +:+ "_id".
Definition iou_field (field eval_key : string) : string :=
  field +:+ ".detections." +:+ eval_key +:+ "_iou".

Section Program.
Context `{Imports}.

(** [DetectionResults.__init__]. *)
Definition DetectionResults (matches : list Match)
    (classes : option (list string)) (missing : string) : result Results :=
  '(ytrue, ypred) ← unpack2 (zip_star (match_tuple <$> matches));
  ClassificationResults_init ytrue ypred VNone classes missing.

(** ** Resolving the configuration *)

Definition _get_default_config (method : string) : result Config :=
  if decide (method = "coco") then Ok COCOEvaluationConfig
  else Raise (ValueError ("Unsupported evaluation method '" +:+ method +:+ "'")).

(** The loop [for k, v in kwargs.items(): setattr(config, k, v)]. *)
Definition apply_overrides (config : Config) (kwargs : list (string * value)) : Config :=
  foldl (fun config kv => setattr config kv.1 kv.2) config kwargs.

Definition _parse_config (config : option Config) (method : option string)
    (kwargs : list (string * value)) : result Config :=
  config ←
    match config with
    | None =>
        let method := default "coco" method in
        _get_default_config method
    | Some config => Ok config
    end;
  Ok (apply_overrides config kwargs).

(** ** Frame fields *)

(** [samples.media_type == fom.VIDEO and field.startswith(samples._FRAMES_PREFIX)]. *)
Definition targets_frames (samples : Collection) (field : string) : bool :=
  bool_decide (media_type samples = VIDEO) && String.prefix _FRAMES_PREFIX field.

(** Modelled from the spec: [_handle_frame_field] of the store tells whether
    the field is frame-scoped and, when it is, strips the frame-namespace
    prefix from its name. *)
Definition _handle_frame_field (samples : Collection) (field : string) :
    string * bool :=
  if targets_frames samples field
  then (String.substring (String.length _FRAMES_PREFIX)
          (String.length field - String.length _FRAMES_PREFIX) field, true)
  else (field, false).

(** ** The evaluation loop *)

(** The counters and the accumulator the loops carry. *)
Definition LoopState : Type := list Match * (Z * Z * Z).

(** The body of [for image in images]. *)
Definition evaluate_unit (eval_method : EvalMethod)
    (pred_field gt_field : string) (eval_key : option string)
    (st : LoopState) (image : gmap string value) :
    result (gmap string value * LoopState) :=
  let '(matches, (sample_tp, sample_fp, sample_fn)) := st in
  gts ← getitem image gt_field;
  preds ← getitem image pred_field;
  '(image_matches, gts, preds) ← eval_method gts preds eval_key;
  let image := <[pred_field := preds]> (<[gt_field := gts]> image) in
  let matches := matches ++ image_matches in
  let '(tp, fp, fn) := _tally_matches image_matches in
  Ok (image, (matches, (sample_tp + tp, sample_fp + fp, sample_fn + fn))).

(** [for image in images]: the images as the method leaves them, the
    accumulator and the counters. *)
Fixpoint evaluate_units (eval_method : EvalMethod)
    (pred_field gt_field : string) (eval_key : option string)
    (st : LoopState) (images : list (gmap string value)) :
    result (list (gmap string value) * LoopState) :=
  match images with
  | [] => Ok ([], st)
  | image :: images =>
      '(image, st) ← evaluate_unit eval_method pred_field gt_field eval_key st image;
      '(images, st) ← evaluate_units eval_method pred_field gt_field eval_key st images;
      Ok (image :: images, st)
  end.

(** The images of a sample, and the sample once its images were evaluated
    (the images are the sample's own objects, not copies). *)
Definition images_of (processing_frames : bool) (sample : Sample) :
    list (gmap string value) :=
  if processing_frames then sample_frames sample else [sample_fields sample].

Definition with_images (processing_frames : bool) (sample : Sample)
    (images : list (gmap string value)) : Sample :=
  if processing_frames
  then {| sample_fields := sample_fields sample; sample_frames := images |}
  else {| sample_fields := default (sample_fields sample) (head images);
          sample_frames := sample_frames sample |}.

(** The evaluation of one sample, before anything is persisted: the sample
    in memory, the accumulator and the counters of the sample. *)
Definition evaluate_sample (eval_method : EvalMethod)
    (processing_frames : bool) (pred_field gt_field : string)
    (eval_key : option string) (matches : list Match) (sample : Sample) :
    result (Sample * LoopState) :=
  '(images, st) ←
    evaluate_units eval_method pred_field gt_field eval_key
      (matches, (0, 0, 0)) (images_of processing_frames sample);
  Ok (with_images processing_frames sample images, st).

(** The body of [for sample in pb(samples.select_fields(...))], for the
    sample at position [i]. *)
Definition scan_sample (eval_method : EvalMethod)
    (processing_frames : bool) (pred_field gt_field : string)
    (eval_key : option string) (matches : list Match)
    (i : nat) (sample : Sample) : M (list Match) :=
  fun w =>
  let w := emit (EvFetch i) w in
  match evaluate_sample eval_method processing_frames pred_field gt_field
          eval_key matches sample with
  | Raise e => (Raise e, w)
  | Ok (sample, (matches, (sample_tp, sample_fp, sample_fn))) =>
      match eval_key with
      | Some eval_key =>
          let sample := setitem sample (tp_field eval_key) (VInt sample_tp) in
          let sample := setitem sample (fp_field eval_key) (VInt sample_fp) in
          let sample := setitem sample (fn_field eval_key) (VInt sample_fn) in
          match save i sample w with
          | (Ok _, w) => (Ok matches, w)
          | (Raise e, w) => (Raise e, w)
          end
      | None => (Ok matches, w)
      end
  end.

(** The scan over the samples that remain, [i] being the position of the
    first of them. *)
Fixpoint scan (eval_method : EvalMethod)
    (processing_frames : bool) (pred_field gt_field : string)
    (eval_key : option string) (matches : list Match)
    (i : nat) (samples : list Sample) : M (list Match) :=
  match samples with
  | [] => mret matches
  | sample :: samples =>
      matches ← scan_sample eval_method processing_frames pred_field gt_field
                  eval_key matches i sample;
      scan eval_method processing_frames pred_field gt_field eval_key
        matches (S i) samples
  end.

Definition evaluate_detections (pred_field gt_field : string)
    (eval_key : option string) (classes : option (list string))
    (missing : string) (method : option string) (config : option Config)
    (kwargs : list (string * value)) : M Results :=
  config ← lift (_parse_config config method kwargs);
  eval_method ← lift (build config);
  samples ← get_collection;
  let processing_frames := targets_frames samples pred_field in
  matches ← scan eval_method processing_frames pred_field gt_field eval_key
              [] 0 (select_fields [gt_field; pred_field] <$> docs samples);
  match eval_key with
  | Some eval_key => _record_eval_info eval_key pred_field gt_field config
  | None => mret ()
  end;;
  lift (DetectionResults matches classes missing).

(** ** Clearing a recorded evaluation *)

Definition clear_detection_evaluation (eval_key : string) : M () :=
  '(pred_field, gt_field, _) ← _get_eval_info eval_key;
  samples ← get_collection;
  let '(pred_field, is_frame_field) := _handle_frame_field samples pred_field in
  let '(gt_field, _) := _handle_frame_field samples gt_field in
  let fields :=
    [ id_field pred_field eval_key; iou_field pred_field eval_key;
      id_field gt_field eval_key; iou_field gt_field eval_key ] in
  (if is_frame_field then delete_frame_fields fields
   else delete_sample_fields fields);;
  delete_sample_fields [tp_field eval_key; fp_field eval_key; fn_field eval_key];;
  _delete_eval_info eval_key.

End Program.

(** ** Vocabulary of the properties *)

(** The world once the scan is over and the evaluation, if named, is
    recorded. *)
Definition recorded (eval_key : option string) (pred_field gt_field : string)
    (config : Config) (w : World) : World :=
  match eval_key with
  | Some eval_key =>
      emit (EvRecord eval_key)
        (set_evaluations (insert eval_key (pred_field, gt_field, config)) w)
  | None => w
  end.

(** The four per-detection fields [clear_detection_evaluation] names. *)
Definition detection_fields (pred_name gt_name eval_key : string) : list string :=
  [ id_field pred_name eval_key; iou_field pred_name eval_key;
    id_field gt_name eval_key; iou_field gt_name eval_key ].

(** The three sample-level fields it names. *)
Definition total_fields (eval_key : string) : list string :=
  [ tp_field eval_key; fp_field eval_key; fn_field eval_key ].

(** The world [clear_detection_evaluation] leaves when the entry of the
    key names [pred_field] and [gt_field]. *)
Definition cleared `{Imports} (eval_key pred_field gt_field : string)
    (w : World) : World :=
  let '(pred_name, frame_scoped) := _handle_frame_field (coll w) pred_field in
  let '(gt_name, _) := _handle_frame_field (coll w) gt_field in
  let per_detection := detection_fields pred_name gt_name eval_key in
  let w1 := ((if frame_scoped then delete_frame_fields per_detection
              else delete_sample_fields per_detection) w).2 in
  let w2 := (delete_sample_fields (total_fields eval_key) w1).2 in
  (_delete_eval_info eval_key w2).2.


(** The sample in memory, once the three totals are set on it. *)
Definition with_totals (eval_key : string) (totals : Z * Z * Z) (sample : Sample) :
    Sample :=
  let '(sample_tp, sample_fp, sample_fn) := totals in
  setitem (setitem (setitem sample (tp_field eval_key) (VInt sample_tp))
             (fp_field eval_key) (VInt sample_fp))
    (fn_field eval_key) (VInt sample_fn).

(** The events of the scan: fetching a sample, saving it. *)
Definition scan_event (e : event) : Prop :=
  match e with
  | EvFetch _ | EvSave _ => True
  | _ => False
  end.


(** ** A concrete instance, for the examples *)

Definition labels_of (v : value) : list string :=
  match v with
  | VList l => omap (fun x => match x with VStr s => Some s | _ => None end) l
  | _ => []
  end.

(** A matching policy that pairs the objects of an image by position. *)
Fixpoint pair_up (gts preds : list string) : list Match :=
  match gts with
  | [] => (fun p => (None, Some p)) <$> preds
  | g :: gts' =>
      match preds with
      | [] => (fun g => (Some g, None)) <$> gts
      | p :: preds' => (Some g, Some p) :: pair_up gts' preds'
      end
  end.

Definition positional_method : EvalMethod :=
  fun gts preds _ => Ok (pair_up (labels_of gts) (labels_of preds), gts, preds).

Definition example_config : Config :=
  {| cfg_class := "COCOEvaluationConfig";
     cfg_attrs := {[ "classwise" := VBool true ]} |}.

Definition example_imports : Imports :=
  {| VIDEO := "video";
     _FRAMES_PREFIX := "frames.";
     COCOEvaluationConfig := example_config;
     build := fun _ => Ok positional_method;
     Results := list (option string) * list (option string);
     ClassificationResults_init := fun ytrue ypred _ _ _ => Ok (ytrue, ypred) |}.

Definition example_sample (gts preds : list string) : Sample :=
  {| sample_fields :=
       {[ "ground_truth" := VList (VStr <$> gts);
          "predictions" := VList (VStr <$> preds);
          "filepath" := VStr "image.jpg" ]};
     sample_frames := [] |}.

Definition example_docs : list Sample :=
  [ example_sample ["cat"; "dog"] ["cat"]; example_sample [] ["dog"] ].

Definition example_world : World :=
  {| coll := {| media_type := "image"; docs := example_docs; evaluations := ∅ |};
     log := [] |}.

(** The same collection, on which an evaluation was already recorded under
    the key ["eval"]. *)
Definition rerun_world : World :=
  {| coll := {| media_type := "image"; docs := example_docs;
                evaluations :=
                  {[ "eval" := ("predictions", "ground_truth", example_config) ]} |};
     log := [] |}.

Definition empty_world : World :=
  {| coll := {| media_type := "image"; docs := []; evaluations := ∅ |};
     log := [] |}.

(** A video collection of one sample with two frames; the frames are read
    under the full names of the fields, as [image[pred_field]] does. *)
Definition example_frame (gts preds : list string) : gmap string value :=
  {[ "frames.ground_truth" := VList (VStr <$> gts);
     "frames.predictions" := VList (VStr <$> preds) ]}.

Definition video_world : World :=
  {| coll := {| media_type := "video";
                docs := [ {| sample_fields := {[ "filepath" := VStr "clip.mp4" ]};
                             sample_frames := [ example_frame ["cat"] ["cat"];
                                                example_frame ["dog"] [] ] |} ];
                evaluations := ∅ |};
     log := [] |}.

(** The example collection once it was evaluated under the key ["eval"]. *)
Definition evaluated_world : World :=
  (@evaluate_detections example_imports "predictions" "ground_truth"
     (Some "eval") None "none" None None [] example_world).2.

(** ** Vocabulary of the further properties *)

(** The calls of a named scan that went through the samples at positions
    [i], ..., [i + n - 1]: each one is fetched, then saved. *)
Definition fetch_save (i n : nat) : list event :=
  flat_map (fun j => [EvFetch j; EvSave j]) (seq i n).

(** Componentwise sum of a list of triples of counters. *)
Definition sum3 (cs : list (Z * Z * Z)) : Z * Z * Z := foldr add3 (0, 0, 0) cs.

(** A matching policy that refuses an image without ground truth objects. *)
Definition picky_method : EvalMethod :=
  fun gts preds eval_key =>
    match labels_of gts with
    | [] => Raise (ValueError "no ground truth")
    | _ => positional_method gts preds eval_key
    end.

Definition picky_imports : Imports :=
  {| VIDEO := "video";
     _FRAMES_PREFIX := "frames.";
     COCOEvaluationConfig := example_config;
     build := fun _ => Ok picky_method;
     Results := list (option string) * list (option string);
     ClassificationResults_init := fun ytrue ypred _ _ _ => Ok (ytrue, ypred) |}.

(** A configuration whose [build] yields the base class method. *)
Definition abstract_imports : Imports :=
  {| VIDEO := "video";
     _FRAMES_PREFIX := "frames.";
     COCOEvaluationConfig := example_config;
     build := fun _ => Ok DetectionEvaluationMethod_evaluate_image;
     Results := list (option string) * list (option string);
     ClassificationResults_init := fun ytrue ypred _ _ _ => Ok (ytrue, ypred) |}.

(** The fields a run may write on a sample: the two label fields and,
    when the run is named, the three totals. *)
Definition written_fields (pred_field gt_field : string)
    (eval_key : option string) : list string :=
  [gt_field; pred_field] ++
  match eval_key with
  | Some k => total_fields k
  | None => []
  end.

(** The sample-level fields outside [fields] are the same in both samples. *)
Definition same_outside (fields : list string) (s s' : Sample) : Prop :=
  ∀ f, f ∉ fields → sample_fields s' !! f = sample_fields s !! f.

(** ** Properties of the tally *)

(** Equality of two triples of counters, component by component. *)
Ltac counters :=
  repeat match goal with
         | |- (_, _) = (_, _) => apply (f_equal2 pair)
         end; lia.

Lemma tally_step_add3 acc m :
  tally_step acc m = add3 acc (contribution m).
Proof.
  destruct acc as [[tp fp] fn], m as [[g|] [p|]]; simpl; counters.
Qed.

Lemma add3_assoc a b c : add3 (add3 a b) c = add3 a (add3 b c).
Proof.
  destruct a as [[? ?] ?], b as [[? ?] ?], c as [[? ?] ?]; simpl.
  counters.
Qed.

Lemma add3_comm a b : add3 a b = add3 b a.
Proof.
  destruct a as [[? ?] ?], b as [[? ?] ?]; simpl. counters.
Qed.

Lemma add3_zero_l a : add3 (0, 0, 0) a = a.
Proof. destruct a as [[? ?] ?]; simpl. counters. Qed.

Lemma add3_zero_r a : add3 a (0, 0, 0) = a.
Proof. rewrite add3_comm. apply add3_zero_l. Qed.

Lemma tally_from_add3 matches acc :
  tally_from acc matches = add3 acc (_tally_matches matches).
Proof.
  unfold _tally_matches, tally_from. revert acc.
  induction matches as [|m ms IH]; intros acc; cbn [foldl].
  - by rewrite add3_zero_r.
  - rewrite (IH (tally_step acc m)), (IH (tally_step (0, 0, 0) m)).
    rewrite (tally_step_add3 acc), (tally_step_add3 (0, 0, 0)), add3_zero_l.
    by rewrite add3_assoc.
Qed.

Lemma tally_app l1 l2 :
  _tally_matches (l1 ++ l2) = add3 (_tally_matches l1) (_tally_matches l2).
Proof.
  unfold _tally_matches at 1. unfold tally_from. rewrite foldl_app.
  apply tally_from_add3.
Qed.

Lemma tally_cons m ms :
  _tally_matches (m :: ms) = add3 (contribution m) (_tally_matches ms).
Proof.
  change (m :: ms) with ([m] ++ ms). rewrite tally_app. f_equal.
Qed.

Lemma tally_insert l1 m l2 :
  _tally_matches (l1 ++ m :: l2) = add3 (_tally_matches (l1 ++ l2)) (contribution m).
Proof.
  rewrite !tally_app, tally_cons, !add3_assoc. f_equal.
  apply add3_comm.
Qed.

(** C1: each pair is classified on its own.  Wherever a pair stands in
    the list, putting it there changes the tally of the remaining pairs by
    exactly one count: one false positive when its gt label is absent, one
    false negative when its gt label is present and its pred label is
    absent, one true positive when both labels are present. *)
Theorem tally_classifies_each_pair (l1 l2 : list Match) :
  let '(tp, fp, fn) := _tally_matches (l1 ++ l2) in
  (∀ pred_label,
     _tally_matches (l1 ++ (None, pred_label) :: l2) = (tp, fp + 1, fn)) ∧
  (∀ gt_label,
     _tally_matches (l1 ++ (Some gt_label, None) :: l2) = (tp, fp, fn + 1)) ∧
  (∀ gt_label pred_label,
     _tally_matches (l1 ++ (Some gt_label, Some pred_label) :: l2)
     = (tp + 1, fp, fn)).
Proof.
  pose proof (tally_insert l1) as H.
  destruct (_tally_matches (l1 ++ l2)) as [[tp fp] fn] eqn:E.
  repeat split; intros; rewrite H, E; simpl; counters.
Qed.

(** C2: the three counts add up to the number of pairs. *)
Theorem tally_sum_length (matches : list Match) :
  let '(tp, fp, fn) := _tally_matches matches in
  tp + fp + fn = Z.of_nat (length matches).
Proof.
  induction matches as [|m ms IH].
  - reflexivity.
  - rewrite tally_cons.
    destruct (_tally_matches ms) as [[tp fp] fn].
    destruct m as [[g|] [p|]]; simpl length; simpl; lia.
Qed.

(** C3, as the code computes it: both [("cat","cat")] and [("cat","dog")]
    have both labels present and are counted as true positives, so the
    scenario tallies to [(tp=2, fp=1, fn=1)]. *)
Theorem tally_scenario :
  _tally_matches scenario_matches = (2, 1, 1).
Proof. reflexivity. Qed.

(** C3, as stated, does not hold: the tally of the scenario is not
    [(tp=1, fp=1, fn=1)]. *)
Lemma tally_scenario_not_1_1_1 :
  _tally_matches scenario_matches ≠ (1, 1, 1).
Proof. vm_compute. discriminate. Qed.

(** ** Properties of the results object *)

Lemma heads_match_tuple (ms : list Match) :
  heads (match_tuple <$> ms) = Some (ms.*1).
Proof.
  induction ms as [|m ms IH]; [done|]. cbn. rewrite IH. done.
Qed.

Lemma heads_second (ms : list Match) :
  heads (tails (match_tuple <$> ms)) = Some (ms.*2).
Proof.
  induction ms as [|m ms IH]; [done|].
  cbn. unfold tails in IH. rewrite IH. done.
Qed.

(** Unpacked over a non-empty list of pairs, [zip] yields the two label
    sequences. *)
Lemma zip_star_matches (ms : list Match) :
  ms ≠ [] → zip_star (match_tuple <$> ms) = [ms.*1; ms.*2].
Proof.
  destruct ms as [|m ms]; [done|]. intros _. cbn.
  rewrite heads_match_tuple. cbn. by rewrite heads_second.
Qed.

Section Properties.
Context `{Imports}.

Lemma DetectionResults_nonempty ms classes missing :
  ms ≠ [] →
  DetectionResults ms classes missing
  = ClassificationResults_init (ms.*1) (ms.*2) VNone classes missing.
Proof.
  intros Hms. unfold DetectionResults. by rewrite zip_star_matches.
Qed.

Lemma DetectionResults_empty classes missing :
  DetectionResults [] classes missing
  = Raise (ValueError "not enough values to unpack (expected 2, got 0)").
Proof. reflexivity. Qed.

(** ** Properties of the configuration resolution *)





Lemma _get_default_config_other method :
  method ≠ "coco" →
  _get_default_config method
  = Raise (ValueError ("Unsupported evaluation method '" +:+ method +:+ "'")).
Proof. intros Hne. unfold _get_default_config. by rewrite decide_False. Qed.

Lemma not_listed_not_coco method :
  method ∉ list_detection_methods ↔ method ≠ "coco".
Proof. unfold list_detection_methods. by rewrite list_elem_of_singleton. Qed.


(** ** The run of [evaluate_detections], phase by phase *)

Lemma evaluate_detections_phases pred_field gt_field eval_key classes missing
    method config kwargs w :
  evaluate_detections pred_field gt_field eval_key classes missing method
    config kwargs w
  = match _parse_config config method kwargs with
    | Raise e => (Raise e, w)
    | Ok cfg =>
        match build cfg with
        | Raise e => (Raise e, w)
        | Ok eval_method =>
            match scan eval_method (targets_frames (coll w) pred_field)
                    pred_field gt_field eval_key [] 0
                    (select_fields [gt_field; pred_field] <$> docs (coll w)) w with
            | (Raise e, w1) => (Raise e, w1)
            | (Ok matches, w1) =>
                (DetectionResults matches classes missing,
                 recorded eval_key pred_field gt_field cfg w1)
            end
        end
    end.
Proof.
  unfold evaluate_detections, mbind, M_bind, lift, get_collection.
  destruct (_parse_config config method kwargs) as [cfg|e]; [|done].
  destruct (build cfg) as [eval_method|e]; [|done].
  destruct (scan _ _ _ _ _ _ _ _ w) as [[matches|e] w1]; [|done].
  destruct eval_key; reflexivity.
Qed.

(** C8: the default method is listed, resolution accepts a method name
    exactly when it is the listed default, and a call with no config and a
    method name that is not listed raises the configuration error in the
    resolution: the world is returned as it was, so no sample was fetched,
    nothing was saved and nothing recorded. *)
Theorem unknown_method_rejected (method : string) (kwargs : list (string * value))
    (pred_field gt_field : string) (eval_key : option string)
    (classes : option (list string)) (missing : string) (w : World) :
  "coco" ∈ list_detection_methods ∧
  (∀ m, (∃ c, _parse_config None (Some m) kwargs = Ok c) ↔ m = "coco") ∧
  (method ∉ list_detection_methods →
   _parse_config None (Some method) kwargs
   = Raise (ValueError ("Unsupported evaluation method '" +:+ method +:+ "'")) ∧
   evaluate_detections pred_field gt_field eval_key classes missing
     (Some method) None kwargs w
   = (Raise (ValueError ("Unsupported evaluation method '" +:+ method +:+ "'")), w)).
Proof.
  split; [by apply list_elem_of_singleton|]. split.
  - intros m. unfold _parse_config; cbn. unfold _get_default_config.
    case_decide as Hm; cbn.
    + split; eauto.
    + split; [by intros [c ?]|done].
  - intros Hm%not_listed_not_coco.
    assert (_parse_config None (Some method) kwargs
            = Raise (ValueError ("Unsupported evaluation method '" +:+ method +:+ "'")))
      as Hparse.
    { unfold _parse_config; cbn. by rewrite _get_default_config_other. }
    split; [done|]. by rewrite evaluate_detections_phases, Hparse.
Qed.


(** C10: the results object cannot be built from an empty list of matches:
    unpacking the zipped list raises.  So a run whose scan yields no match
    raises that error (after the scan, and after the evaluation was
    recorded if it is named), and a run over an empty collection always
    raises. *)
Theorem no_matches_no_results (pred_field gt_field : string)
    (eval_key : option string) (classes : option (list string))
    (missing : string) (method : option string) (config : option Config)
    (kwargs : list (string * value)) (w : World) :
  DetectionResults [] classes missing
  = Raise (ValueError "not enough values to unpack (expected 2, got 0)") ∧
  (∀ cfg eval_method,
     _parse_config config method kwargs = Ok cfg →
     build cfg = Ok eval_method →
     (scan eval_method (targets_frames (coll w) pred_field) pred_field gt_field
        eval_key [] 0 (select_fields [gt_field; pred_field] <$> docs (coll w)) w).1
     = Ok [] →
     (evaluate_detections pred_field gt_field eval_key classes missing method
        config kwargs w).1
     = Raise (ValueError "not enough values to unpack (expected 2, got 0)")) ∧
  (docs (coll w) = [] →
   raised (evaluate_detections pred_field gt_field eval_key classes missing
             method config kwargs w).1).
Proof.
  split; [reflexivity|]. split.
  - intros cfg eval_method Hcfg Hbuild Hscan.
    rewrite evaluate_detections_phases, Hcfg, Hbuild.
    destruct (scan _ _ _ _ _ _ _ _ w) as [[matches|e] w1]; cbn in Hscan; [|done].
    by simplify_eq.
  - intros Hdocs. rewrite evaluate_detections_phases, Hdocs.
    destruct (_parse_config config method kwargs) as [cfg|e]; [|by eexists].
    destruct (build cfg) as [eval_method|e]; [|by eexists].
    cbn. by eexists.
Qed.

(** ** Properties of clearing *)

Lemma lookup_delete_keys fields (d : gmap string value) f :
  delete_keys fields d !! f = if bool_decide (f ∈ fields) then None else d !! f.
Proof.
  unfold delete_keys. revert d.
  induction fields as [|a fields IH]; intros d; cbn [foldl].
  - by rewrite bool_decide_eq_false_2 by apply not_elem_of_nil.
  - rewrite IH. destruct (decide (f ∈ fields)) as [Hin|Hnin].
    + rewrite (bool_decide_eq_true_2 (f ∈ fields)) by done.
      by rewrite bool_decide_eq_true_2 by (apply elem_of_cons; by right).
    + rewrite (bool_decide_eq_false_2 (f ∈ fields)) by done.
      destruct (decide (f = a)) as [->|Hne].
      * rewrite bool_decide_eq_true_2 by (apply elem_of_cons; by left).
        apply lookup_delete_eq.
      * rewrite bool_decide_eq_false_2 by (by intros [?|?]%elem_of_cons).
        by apply lookup_delete_ne.
Qed.

Lemma substring_all (s : string) : String.substring 0 (String.length s) s = s.
Proof. induction s as [|a s IH]; cbn; [done|]. by rewrite IH. Qed.

(** A name under the frame prefix is stripped of it. *)
Lemma strip_prefix (p name : string) :
  String.prefix p (p +:+ name) = true ∧
  String.substring (String.length p)
    (String.length (p +:+ name) - String.length p) (p +:+ name) = name.
Proof.
  induction p as [|a p [IH1 IH2]].
  - change ("" +:+ name) with name. cbn. split; [by destruct name|].
    rewrite Nat.sub_0_r. apply substring_all.
  - change (String a p +:+ name) with (String a (p +:+ name)). cbn.
    split; [|exact IH2]. destruct (Ascii.ascii_dec a a); [exact IH1|congruence].
Qed.

Lemma _handle_frame_field_frames samples name :
  media_type samples = VIDEO →
  _handle_frame_field samples (_FRAMES_PREFIX +:+ name) = (name, true).
Proof.
  intros Hv. unfold _handle_frame_field, targets_frames.
  destruct (strip_prefix _FRAMES_PREFIX name) as [-> ->].
  by rewrite bool_decide_eq_true_2.
Qed.

Lemma _handle_frame_field_images samples field :
  media_type samples ≠ VIDEO →
  _handle_frame_field samples field = (field, false).
Proof.
  intros Hv. unfold _handle_frame_field, targets_frames.
  by rewrite bool_decide_eq_false_2.
Qed.

Lemma clear_recorded eval_key pred_field gt_field config w :
  evaluations (coll w) !! eval_key = Some (pred_field, gt_field, config) →
  clear_detection_evaluation eval_key w
  = (Ok (), cleared eval_key pred_field gt_field w).
Proof.
  intros Hinfo.
  unfold clear_detection_evaluation, cleared, mbind, M_bind, _get_eval_info,
    get_collection.
  rewrite Hinfo.
  destruct (_handle_frame_field (coll w) pred_field) as [pred_name [|]];
    by destruct (_handle_frame_field (coll w) gt_field) as [gt_name gt_scoped].
Qed.

Lemma clear_unrecorded eval_key w :
  evaluations (coll w) !! eval_key = None →
  clear_detection_evaluation eval_key w = (Raise (NotFoundError eval_key), w).
Proof.
  intros Hnone.
  unfold clear_detection_evaluation, mbind, M_bind, _get_eval_info.
  by rewrite Hnone.
Qed.

Lemma cleared_evaluations eval_key pred_field gt_field w :
  evaluations (coll (cleared eval_key pred_field gt_field w))
  = delete eval_key (evaluations (coll w)).
Proof.
  unfold cleared.
  destruct (_handle_frame_field (coll w) pred_field) as [pred_name [|]];
    by destruct (_handle_frame_field (coll w) gt_field) as [gt_name gt_scoped].
Qed.

(** C4: when no EvalInfo entry is recorded under the key, clearing raises
    the not-found error and returns the world as it was: no field was
    deleted from any sample or frame, no entry was removed, and no deletion
    was even requested from the store.  This is the case of a key that was
    never recorded and of a key that was already cleared. *)
Theorem clear_unrecorded_fails (eval_key : string) (w : World) :
  (evaluations (coll w) !! eval_key = None →
   clear_detection_evaluation eval_key w = (Raise (NotFoundError eval_key), w)) ∧
  (∀ w0, clear_detection_evaluation eval_key w0 = (Ok (), w) →
         clear_detection_evaluation eval_key w = (Raise (NotFoundError eval_key), w)).
Proof.
  split; [apply clear_unrecorded|].
  intros w0 Hclear. apply clear_unrecorded.
  destruct (evaluations (coll w0) !! eval_key) as [[[pred_field gt_field] config]|]
    eqn:Hinfo.
  - rewrite (clear_recorded _ _ _ _ _ Hinfo) in Hclear.
    injection Hclear as <-. rewrite cleared_evaluations. apply lookup_delete_eq.
  - by rewrite (clear_unrecorded _ _ Hinfo) in Hclear.
Qed.


(** ** Properties of the scan *)

Lemma scan_sample_cases eval_method pf pred_field gt_field eval_key matches i sample w :
  scan_sample eval_method pf pred_field gt_field eval_key matches i sample w
  = match evaluate_sample eval_method pf pred_field gt_field eval_key matches sample with
    | Raise e => (Raise e, emit (EvFetch i) w)
    | Ok (mem, (matches, totals)) =>
        match eval_key with
        | Some k =>
            (Ok matches,
             emit (EvSave i)
               (set_docs (alter (stored (with_totals k totals mem)) i)
                  (emit (EvFetch i) w)))
        | None => (Ok matches, emit (EvFetch i) w)
        end
    end.
Proof.
  unfold scan_sample.
  destruct (evaluate_sample _ _ _ _ _ _ _) as [[mem [ms [[tp fp] fn]]]|e]; [|done].
  by destruct eval_key.
Qed.

Lemma scan_cons eval_method pf pred_field gt_field eval_key matches i sample samples w :
  scan eval_method pf pred_field gt_field eval_key matches i (sample :: samples) w
  = match scan_sample eval_method pf pred_field gt_field eval_key matches i sample w with
    | (Ok matches, w1) =>
        scan eval_method pf pred_field gt_field eval_key matches (S i) samples w1
    | (Raise e, w1) => (Raise e, w1)
    end.
Proof. reflexivity. Qed.

(** The scan over a list of samples is the scan over its first part,
    followed, if that did not raise, by the scan over the rest. *)
Lemma scan_app eval_method pf pred_field gt_field eval_key matches i done rest w :
  scan eval_method pf pred_field gt_field eval_key matches i (done ++ rest) w
  = match scan eval_method pf pred_field gt_field eval_key matches i done w with
    | (Ok matches, w1) =>
        scan eval_method pf pred_field gt_field eval_key matches
          (i + length done)%nat rest w1
    | (Raise e, w1) => (Raise e, w1)
    end.
Proof.
  revert matches i w. induction done as [|s done IH]; intros matches i w.
  - cbn. by rewrite Nat.add_0_r.
  - cbn [app]. rewrite !scan_cons.
    destruct (scan_sample _ _ _ _ _ _ _ _ w) as [[ms|e] w1]; [|done].
    rewrite IH. cbn [length]. by rewrite Nat.add_succ_r.
Qed.

(** The scan leaves the media type and the EvalInfo entries alone, and
    only fetches and saves. *)
Lemma scan_sample_frame eval_method pf pred_field gt_field eval_key matches i sample w :
  let w' := (scan_sample eval_method pf pred_field gt_field eval_key matches i sample w).2 in
  evaluations (coll w') = evaluations (coll w) ∧
  media_type (coll w') = media_type (coll w) ∧
  ∃ l, log w' = log w ++ l ∧ Forall scan_event l.
Proof.
  rewrite scan_sample_cases.
  destruct (evaluate_sample _ _ _ _ _ _ _) as [[mem [ms totals]]|e];
    [destruct eval_key|]; cbn; repeat split; try done.
  - exists [EvFetch i; EvSave i]. rewrite <- app_assoc. by repeat constructor.
  - exists [EvFetch i]. by repeat constructor.
  - exists [EvFetch i]. by repeat constructor.
Qed.

Lemma scan_frame eval_method pf pred_field gt_field eval_key matches i samples w :
  let w' := (scan eval_method pf pred_field gt_field eval_key matches i samples w).2 in
  evaluations (coll w') = evaluations (coll w) ∧
  media_type (coll w') = media_type (coll w) ∧
  ∃ l, log w' = log w ++ l ∧ Forall scan_event l.
Proof.
  revert matches i w. induction samples as [|s samples IH]; intros matches i w.
  - cbn. repeat split. exists []. by rewrite app_nil_r.
  - rewrite scan_cons.
    pose proof (scan_sample_frame eval_method pf pred_field gt_field eval_key
                  matches i s w) as Hs.
    destruct (scan_sample _ _ _ _ _ _ _ _ w) as [[ms|e] w1]; [|exact Hs].
    cbn in Hs. destruct Hs as (He & Hm & l1 & Hl1 & Hf1).
    destruct (IH ms (S i) w1) as (He' & Hm' & l2 & Hl2 & Hf2).
    cbn zeta. rewrite He', Hm', Hl2, Hl1, <- app_assoc.
    repeat split; try done. exists (l1 ++ l2). split; [done|].
    by apply Forall_app.
Qed.

(** Without an evaluation key the scan writes nothing at all. *)
Lemma scan_unnamed eval_method pf pred_field gt_field matches i samples w :
  let w' := (scan eval_method pf pred_field gt_field None matches i samples w).2 in
  coll w' = coll w ∧ ∃ n, log w' = log w ++ (EvFetch <$> seq i n).
Proof.
  revert matches i w. induction samples as [|s samples IH]; intros matches i w.
  - cbn. split; [done|]. exists 0%nat. by rewrite app_nil_r.
  - rewrite scan_cons, scan_sample_cases.
    destruct (evaluate_sample _ _ _ _ _ _ _) as [[mem [ms totals]]|e].
    + destruct (IH ms (S i) (emit (EvFetch i) w)) as (Hc & n & Hl).
      cbn zeta. rewrite Hc, Hl. split; [done|].
      exists (S n). cbn. by rewrite <- app_assoc.
    + cbn. split; [done|]. by exists 1%nat.
Qed.

(** ** The per-sample totals *)

Lemma evaluate_unit_acc eval_method pred_field gt_field eval_key acc c image :
  evaluate_unit eval_method pred_field gt_field eval_key (acc, c) image
  = match evaluate_unit eval_method pred_field gt_field eval_key ([], (0, 0, 0)) image with
    | Ok (image, (ms, c')) =>
        Ok (image, (acc ++ ms, add3 c c'))
    | Raise e => Raise e
    end.
Proof.
  destruct c as [[tp fp] fn]. unfold evaluate_unit.
  destruct (getitem image gt_field) as [gts|e]; [|done]; cbn.
  destruct (getitem image pred_field) as [preds|e]; [|done]; cbn.
  destruct (eval_method gts preds eval_key) as [[[ms gts'] preds']|e]; [|done]; cbn.
  by destruct (_tally_matches ms) as [[tp' fp'] fn'].
Qed.

Lemma evaluate_unit_tally eval_method pred_field gt_field eval_key image image' ms c :
  evaluate_unit eval_method pred_field gt_field eval_key ([], (0, 0, 0)) image
  = Ok (image', (ms, c)) →
  c = _tally_matches ms.
Proof.
  unfold evaluate_unit.
  destruct (getitem image gt_field) as [gts|e]; [|done]; cbn.
  destruct (getitem image pred_field) as [preds|e]; [|done]; cbn.
  destruct (eval_method gts preds eval_key) as [[[ms' gts'] preds']|e]; [|done]; cbn.
  destruct (_tally_matches ms') as [[tp' fp'] fn'] eqn:Ht.
  intros [= <- <- <-]. cbn. by rewrite Ht.
Qed.

Lemma evaluate_units_acc eval_method pred_field gt_field eval_key acc c images :
  evaluate_units eval_method pred_field gt_field eval_key (acc, c) images
  = match evaluate_units eval_method pred_field gt_field eval_key ([], (0, 0, 0)) images with
    | Ok (images, (ms, c')) => Ok (images, (acc ++ ms, add3 c c'))
    | Raise e => Raise e
    end.
Proof.
  revert acc c. induction images as [|image images IH]; intros acc c.
  - cbn. by rewrite app_nil_r, add3_zero_r.
  - cbn [evaluate_units].
    rewrite (evaluate_unit_acc _ _ _ _ acc c).
    destruct (evaluate_unit _ _ _ _ ([], (0, 0, 0)) image)
      as [[image' [ms1 c1]]|e]; [|done]; cbn.
    rewrite (IH (acc ++ ms1)), (IH ms1).
    destruct (evaluate_units _ _ _ _ ([], (0, 0, 0)) images)
      as [[images' [ms2 c2]]|e]; [|done]; cbn.
    by rewrite app_assoc, add3_assoc.
Qed.

Lemma evaluate_units_tally eval_method pred_field gt_field eval_key images images' ms c :
  evaluate_units eval_method pred_field gt_field eval_key ([], (0, 0, 0)) images
  = Ok (images', (ms, c)) →
  c = _tally_matches ms.
Proof.
  revert images' ms c. induction images as [|image images IH]; intros images' ms c.
  - by intros [= <- <- <-].
  - cbn [evaluate_units].
    destruct (evaluate_unit _ _ _ _ _ image) as [[image' [ms1 c1]]|e] eqn:H1; [|done].
    cbn. rewrite evaluate_units_acc.
    destruct (evaluate_units _ _ _ _ ([], (0, 0, 0)) images)
      as [[images2 [ms2 c2]]|e] eqn:H2; [|done].
    cbn. intros [= <- <- <-].
    rewrite tally_app, (evaluate_unit_tally _ _ _ _ _ _ _ _ H1).
    by rewrite (IH _ _ _ eq_refl).
Qed.

(** The accumulator a sample is evaluated with only prefixes its matches. *)
Lemma evaluate_sample_acc eval_method pf pred_field gt_field eval_key acc sample :
  evaluate_sample eval_method pf pred_field gt_field eval_key acc sample
  = match evaluate_sample eval_method pf pred_field gt_field eval_key [] sample with
    | Ok (mem, (ms, c)) => Ok (mem, (acc ++ ms, c))
    | Raise e => Raise e
    end.
Proof.
  unfold evaluate_sample. rewrite evaluate_units_acc.
  destruct (evaluate_units _ _ _ _ ([], (0, 0, 0)) _) as [[images [ms c]]|e]; [|done].
  cbn -[add3]. by rewrite add3_zero_l.
Qed.

(** The totals of a sample are the tally of the matches of its images. *)
Lemma evaluate_sample_tally eval_method pf pred_field gt_field eval_key sample mem ms c :
  evaluate_sample eval_method pf pred_field gt_field eval_key [] sample
  = Ok (mem, (ms, c)) →
  c = _tally_matches ms.
Proof.
  unfold evaluate_sample.
  destruct (evaluate_units _ _ _ _ _ _) as [[images [ms' c']]|e] eqn:Hu; [|done].
  cbn. intros [= <- <- <-]. by eapply evaluate_units_tally.
Qed.

(** ** What a named scan leaves in the store *)






(** C7, amended: while the samples are scanned the EvalInfo entries are
    exactly those the collection had when the run started.  After any
    number of samples, and also when the scan is aborted by an exception,
    the entries are unchanged and the store was only asked to fetch and to
    save samples; the entry of the run is written once, after the last
    sample, as the last call on the store. *)
Theorem evalinfo_written_after_scan (pred_field gt_field k : string)
    (classes : option (list string)) (missing : string)
    (method : option string) (config : option Config)
    (kwargs : list (string * value)) (cfg : Config) (eval_method : EvalMethod)
    (w : World) :
  _parse_config config method kwargs = Ok cfg →
  build cfg = Ok eval_method →
  let pf := targets_frames (coll w) pred_field in
  let items := select_fields [gt_field; pred_field] <$> docs (coll w) in
  let run := evaluate_detections pred_field gt_field (Some k) classes missing
               method config kwargs w in
  (∀ j,
     let step := scan eval_method pf pred_field gt_field (Some k) [] 0
                   (take j items) w in
     scan eval_method pf pred_field gt_field (Some k) [] 0 items w
     = match step with
       | (Ok matches, w1) =>
           scan eval_method pf pred_field gt_field (Some k) matches
             (length (take j items)) (drop j items) w1
       | (Raise e, w1) => (Raise e, w1)
       end ∧
     evaluations (coll step.2) = evaluations (coll w) ∧
     ∃ l, log step.2 = log w ++ l ∧ Forall scan_event l) ∧
  match scan eval_method pf pred_field gt_field (Some k) [] 0 items w with
  | (Raise e, w1) =>
      run = (Raise e, w1) ∧ evaluations (coll w1) = evaluations (coll w)
  | (Ok matches, w1) =>
      evaluations (coll run.2)
      = <[k := (pred_field, gt_field, cfg)]> (evaluations (coll w)) ∧
      ∃ l, log run.2 = log w ++ l ++ [EvRecord k] ∧ Forall scan_event l
  end.
Proof.
  intros Hcfg Hbuild. cbn zeta. split.
  - intros j. split.
    + rewrite <- (take_drop j (select_fields _ <$> docs (coll w))) at 1.
      by rewrite scan_app.
    + pose proof (scan_frame eval_method (targets_frames (coll w) pred_field)
                    pred_field gt_field (Some k) [] 0
                    (take j (select_fields [gt_field; pred_field] <$> docs (coll w)))
                    w) as Hf.
      cbn zeta in Hf. tauto.
  - rewrite evaluate_detections_phases, Hcfg, Hbuild.
    pose proof (scan_frame eval_method (targets_frames (coll w) pred_field)
                  pred_field gt_field (Some k) [] 0
                  (select_fields [gt_field; pred_field] <$> docs (coll w)) w) as Hf.
    destruct (scan _ _ _ _ _ _ _ _ w) as [[ms|e] w1]; cbn in Hf |- *.
    + destruct Hf as (He & _ & l & Hl & Hfa). rewrite He, Hl.
      split; [done|]. exists l. by rewrite <- app_assoc.
    + tauto.
Qed.

End Properties.

(** ** Instances of the properties, on the example collection *)

Lemma unknown_method_rejected_witness :
  ("yolo" ∉ list_detection_methods) ∧
  (@evaluate_detections example_imports "predictions" "ground_truth"
     (Some "eval") None "none" (Some "yolo") None [] example_world)
  = (Raise (ValueError "Unsupported evaluation method 'yolo'"), example_world).
Proof.
  assert ("yolo" ∉ list_detection_methods) as Hm
    by (apply not_listed_not_coco; discriminate).
  split; [exact Hm|].
  apply (@unknown_method_rejected example_imports "yolo" [] "predictions"
           "ground_truth" (Some "eval") None "none" example_world).
  exact Hm.
Defined.

Lemma clear_unrecorded_fails_witness :
  let w := (@clear_detection_evaluation example_imports "eval" evaluated_world).2 in
  (evaluations (coll example_world) !! "eval" = None ∧
   @clear_detection_evaluation example_imports "eval" example_world
   = (Raise (NotFoundError "eval"), example_world)) ∧
  (@clear_detection_evaluation example_imports "eval" evaluated_world = (Ok (), w) ∧
   @clear_detection_evaluation example_imports "eval" w
   = (Raise (NotFoundError "eval"), w)).
Proof.
  cbn zeta. split.
  - split; [reflexivity|].
    apply (@clear_unrecorded_fails example_imports "eval" example_world).
    reflexivity.
  - assert (@clear_detection_evaluation example_imports "eval" evaluated_world
            = (Ok (), (@clear_detection_evaluation example_imports "eval"
                         evaluated_world).2)) as Hcleared
      by (vm_compute; reflexivity).
    split; [exact Hcleared|].
    exact (proj2 (@clear_unrecorded_fails example_imports "eval" _)
             evaluated_world Hcleared).
Defined.


Lemma evalinfo_written_after_scan_witness :
  @_parse_config example_imports None None [] = Ok example_config ∧
  @build example_imports example_config = Ok positional_method ∧
  evaluations
    (coll (@evaluate_detections example_imports "predictions" "ground_truth"
             (Some "eval") None "none" None None [] example_world).2)
  = <[ "eval" := ("predictions", "ground_truth", example_config) ]> ∅.
Proof.
  split; [reflexivity|]. split; [reflexivity|].
  pose proof (@evalinfo_written_after_scan example_imports "predictions"
                "ground_truth" "eval" None "none" None None [] example_config
                positional_method example_world eq_refl eq_refl) as [_ Hend].
  exact (proj1 Hend).
Defined.

(** C7, as stated, does not hold: when the evaluation key was already used
    by an earlier run, its entry exists at the intermediate steps of the
    scan.  Here the first of the two samples was processed and saved. *)
Lemma evalinfo_present_during_rerun :
  let step := scan positional_method false "predictions" "ground_truth"
                (Some "eval") [] 0
                (take 1 (select_fields ["ground_truth"; "predictions"]
                           <$> docs (coll rerun_world)))
                rerun_world in
  step.1 = Ok [(Some "cat", Some "cat"); (Some "dog", None)] ∧
  log step.2 = [EvFetch 0; EvSave 0] ∧
  evaluations (coll step.2) !! "eval"
  = Some ("predictions", "ground_truth", example_config) ∧
  evaluations (coll step.2) !! "eval" ≠ None.
Proof.
  vm_compute. repeat split; discriminate.
Qed.


(** On the example, clearing gives back the samples as they were before
    the evaluation. *)
Example clear_after_evaluate_example :
  docs (coll (@clear_detection_evaluation example_imports "eval" evaluated_world).2)
  = docs (coll example_world).
Proof. vm_compute. reflexivity. Qed.


Lemma no_matches_no_results_witness :
  docs (coll empty_world) = [] ∧
  (@evaluate_detections example_imports "predictions" "ground_truth"
     (Some "eval") None "none" None None [] empty_world).1
  = Raise (ValueError "not enough values to unpack (expected 2, got 0)") ∧
  raised (@evaluate_detections example_imports "predictions" "ground_truth"
            (Some "eval") None "none" None None [] empty_world).1.
Proof.
  split; [reflexivity|].
  destruct (@no_matches_no_results example_imports "predictions" "ground_truth"
              (Some "eval") None "none" None None [] empty_world)
    as (_ & Hzero & Hempty).
  split.
  - apply (Hzero example_config positional_method); reflexivity.
  - apply Hempty. reflexivity.
Defined.

(** On a video, the totals of a sample are summed over its frames. *)
Example evaluate_video_example :
  let run := @evaluate_detections example_imports "frames.predictions"
               "frames.ground_truth" (Some "eval") None "none" None None []
               video_world in
  run.1 = Ok ([Some "cat"; Some "dog"], [Some "cat"; None]) ∧
  log run.2 = [EvFetch 0; EvSave 0; EvRecord "eval"] ∧
  (sample_fields <$> docs (coll run.2) !! 0%nat) ≫= (.!! "eval_tp") = Some (VInt 1) ∧
  (sample_fields <$> docs (coll run.2) !! 0%nat) ≫= (.!! "eval_fp") = Some (VInt 0) ∧
  (sample_fields <$> docs (coll run.2) !! 0%nat) ≫= (.!! "eval_fn") = Some (VInt 1).
Proof. vm_compute. repeat split. Qed.

(** On a video whose prediction field is frame-scoped, the per-detection
    fields are requested from the frames, under the stripped names. *)
Example clear_video_example :
  let run := @evaluate_detections example_imports "frames.predictions"
               "frames.ground_truth" (Some "eval") None "none" None None []
               video_world in
  let cleared := @clear_detection_evaluation example_imports "eval" run.2 in
  cleared.1 = Ok () ∧
  drop 3 (log cleared.2)
  = [ EvDeleteFrameFields
        [ "predictions.detections.eval_id"; "predictions.detections.eval_iou";
          "ground_truth.detections.eval_id"; "ground_truth.detections.eval_iou" ];
      EvDeleteSampleFields [ "eval_tp"; "eval_fp"; "eval_fn" ];
      EvDeleteEvalInfo "eval" ] ∧
  evaluations (coll cleared.2) = ∅ ∧
  (sample_fields <$> docs (coll cleared.2) !! 0%nat) ≫= (.!! "eval_tp") = None.
Proof. vm_compute. repeat split. Qed.

(** * Further properties of the module *)

(** ** The tally, composed and reordered *)

Lemma tally_concat (per_item : list (list Match)) :
  _tally_matches (concat per_item) = sum3 (_tally_matches <$> per_item).
Proof.
  induction per_item as [|ms per_item IH]; [done|].
  cbn. by rewrite tally_app, IH.
Qed.

(** X1: the tally of a concatenation is the sum of the tallies, and the
    tally does not depend on the order of the pairs. *)
Theorem tally_additive_order_free (l1 l2 : list Match) :
  _tally_matches (l1 ++ l2) = add3 (_tally_matches l1) (_tally_matches l2) ∧
  (l1 ≡ₚ l2 → _tally_matches l1 = _tally_matches l2).
Proof.
  split; [apply tally_app|].
  induction 1 as [|m l l' _ IH|m m' l|l l' l'' _ IH1 _ IH2].
  - done.
  - by rewrite !tally_cons, IH.
  - rewrite !tally_cons, <- !add3_assoc. f_equal. apply add3_comm.
  - by rewrite IH1.
Qed.

(** X11: each of the three counts lies between zero and the number of
    pairs. *)
Theorem tally_bounds (matches : list Match) :
  let '(tp, fp, fn) := _tally_matches matches in
  let n := Z.of_nat (length matches) in
  0 ≤ tp ≤ n ∧ 0 ≤ fp ≤ n ∧ 0 ≤ fn ≤ n.
Proof.
  cut (let '(tp, fp, fn) := _tally_matches matches in
       0 ≤ tp ∧ 0 ≤ fp ∧ 0 ≤ fn ∧ tp + fp + fn = Z.of_nat (length matches)).
  { destruct (_tally_matches matches) as [[tp fp] fn]. cbn zeta. lia. }
  induction matches as [|m ms IH]; [cbn; lia|].
  rewrite tally_cons. destruct (_tally_matches ms) as [[tp fp] fn].
  destruct m as [[g|] [p|]]; simpl length; simpl; lia.
Qed.

(** ** The label sequences of the results *)

(** X2: [zip] over the unpacked matches, unpacked into two names, gives
    the sequence of the gt labels and the sequence of the pred labels, in
    the order of the matches, for every list of matches but the empty one;
    the constructor of the parent class receives exactly these. *)
Theorem results_label_sequences `{Imports} (ms : list Match)
    (classes : option (list string)) (missing : string) :
  unpack2 (zip_star (match_tuple <$> ms))
  = match ms with
    | [] => Raise (ValueError "not enough values to unpack (expected 2, got 0)")
    | _ => Ok (ms.*1, ms.*2)
    end ∧
  (ms ≠ [] →
   DetectionResults ms classes missing
   = ClassificationResults_init (ms.*1) (ms.*2) VNone classes missing).
Proof.
  split.
  - destruct ms as [|m ms]; [done|]. by rewrite zip_star_matches.
  - intros Hms. unfold DetectionResults. by rewrite zip_star_matches.
Qed.

(** ** Resolution: the method and the order of the overrides *)



Section MoreProperties.
Context `{Imports}.



(** ** What the scan hands to the results *)

Lemma scan_collects eval_method pf pred_field gt_field eval_key acc i items w ms w' :
  scan eval_method pf pred_field gt_field eval_key acc i items w = (Ok ms, w') →
  ∃ per_item,
    Forall2 (fun item item_matches =>
      ∃ mem, evaluate_sample eval_method pf pred_field gt_field eval_key [] item
             = Ok (mem, (item_matches, _tally_matches item_matches)))
      items per_item ∧
    ms = acc ++ concat per_item.
Proof.
  revert acc i w. induction items as [|s items IH]; intros acc i w.
  - cbn. intros [= <- <-]. exists []. split; [constructor|].
    by rewrite app_nil_r.
  - rewrite scan_cons, scan_sample_cases, evaluate_sample_acc.
    destruct (evaluate_sample _ _ _ _ _ [] s) as [[mem [ms1 totals]]|e] eqn:Hs;
      [|done].
    rewrite (evaluate_sample_tally _ _ _ _ _ _ _ _ _ Hs) in Hs.
    assert (∀ w1, scan eval_method pf pred_field gt_field eval_key (acc ++ ms1)
                    (S i) items w1 = (Ok ms, w') →
                  ∃ per_item,
                    Forall2 (fun item item_matches =>
                      ∃ mem, evaluate_sample eval_method pf pred_field gt_field
                               eval_key [] item
                             = Ok (mem, (item_matches, _tally_matches item_matches)))
                      (s :: items) per_item ∧
                    ms = acc ++ concat per_item) as Hrest.
    { intros w1 Hscan. destruct (IH _ _ _ Hscan) as (per_item & Hall & ->).
      exists (ms1 :: per_item). split; [constructor; eauto|].
      cbn. by rewrite app_assoc. }
    destruct eval_key; apply Hrest.
Qed.

(** The outcome of the scan does not depend on the world it starts in. *)
Lemma scan_outcome_world eval_method pf pred_field gt_field eval_key acc i items w w' :
  (scan eval_method pf pred_field gt_field eval_key acc i items w).1
  = (scan eval_method pf pred_field gt_field eval_key acc i items w').1.
Proof.
  revert acc i w w'. induction items as [|s items IH]; intros acc i w w'; [done|].
  rewrite !scan_cons, !scan_sample_cases.
  destruct (evaluate_sample _ _ _ _ _ _ _) as [[mem [ms1 totals]]|e]; [|done].
  destruct eval_key; apply IH.
Qed.

(** X5: the matches the results object is built from are the matches of
    the samples, sample after sample in the order of the collection, and
    their tally is the sum of the totals of the samples. *)
Theorem results_built_from_all_matches (pred_field gt_field : string)
    (eval_key : option string) (classes : option (list string))
    (missing : string) (method : option string) (config : option Config)
    (kwargs : list (string * value)) (cfg : Config) (eval_method : EvalMethod)
    (matches : list Match) (w : World) :
  let pf := targets_frames (coll w) pred_field in
  let items := select_fields [gt_field; pred_field] <$> docs (coll w) in
  _parse_config config method kwargs = Ok cfg →
  build cfg = Ok eval_method →
  (scan eval_method pf pred_field gt_field eval_key [] 0 items w).1 = Ok matches →
  (evaluate_detections pred_field gt_field eval_key classes missing method
     config kwargs w).1
  = DetectionResults matches classes missing ∧
  ∃ per_item,
    Forall2 (fun s item_matches =>
      ∃ mem, evaluate_sample eval_method pf pred_field gt_field eval_key []
               (select_fields [gt_field; pred_field] s)
             = Ok (mem, (item_matches, _tally_matches item_matches)))
      (docs (coll w)) per_item ∧
    matches = concat per_item ∧
    _tally_matches matches = sum3 (_tally_matches <$> per_item).
Proof.
  cbn zeta. intros Hcfg Hbuild Hscan.
  rewrite evaluate_detections_phases, Hcfg, Hbuild.
  destruct (scan _ _ _ _ _ _ _ _ w) as [[ms|e] w1] eqn:Hrun; [|done].
  cbn in Hscan. injection Hscan as ->. split; [done|].
  destruct (scan_collects _ _ _ _ _ _ _ _ _ _ _ Hrun) as (per_item & Hall & ->).
  exists per_item. split; [by apply Forall2_fmap_l in Hall|].
  split; [done|]. apply tally_concat.
Qed.

(** X6: with the method of the base class, a run raises the
    not-implemented error as soon as the first image with both fields is
    evaluated: the first sample was fetched, nothing was saved and nothing
    recorded. *)
Theorem abstract_method_raises (pred_field gt_field : string)
    (eval_key : option string) (classes : option (list string))
    (missing : string) (method : option string) (config : option Config)
    (kwargs : list (string * value)) (cfg : Config) (w : World)
    (s : Sample) (rest : list Sample) (image : gmap string value)
    (images : list (gmap string value)) (gts preds : value) :
  _parse_config config method kwargs = Ok cfg →
  build cfg = Ok DetectionEvaluationMethod_evaluate_image →
  docs (coll w) = s :: rest →
  images_of (targets_frames (coll w) pred_field)
    (select_fields [gt_field; pred_field] s) = image :: images →
  image !! gt_field = Some gts →
  image !! pred_field = Some preds →
  evaluate_detections pred_field gt_field eval_key classes missing method
    config kwargs w
  = (Raise (NotImplementedError "subclass must implement evaluate_image"),
     emit (EvFetch 0) w).
Proof.
  intros Hcfg Hbuild Hdocs Himages Hgt Hpred.
  rewrite evaluate_detections_phases, Hcfg, Hbuild, Hdocs.
  cbn [fmap list_fmap]. rewrite scan_cons, scan_sample_cases.
  unfold evaluate_sample. rewrite Himages. cbn [evaluate_units].
  unfold evaluate_unit, getitem. by rewrite Hgt, Hpred.
Qed.

(** ** The calls of a named run, in order *)

Lemma named_scan_log eval_method pf pred_field gt_field k acc i items w :
  let run := scan eval_method pf pred_field gt_field (Some k) acc i items w in
  match run.1 with
  | Ok _ => log run.2 = log w ++ fetch_save i (length items)
  | Raise _ =>
      ∃ n, (n < length items)%nat ∧
           log run.2 = log w ++ fetch_save i n ++ [EvFetch (i + n)] ∧
           ∀ j, (j < i ∨ i + n ≤ j)%nat →
                docs (coll run.2) !! j = docs (coll w) !! j
  end.
Proof.
  revert acc i w. induction items as [|s items IH]; intros acc i w.
  - cbn. by rewrite app_nil_r.
  - cbn zeta. rewrite scan_cons, scan_sample_cases.
    destruct (evaluate_sample _ _ _ _ _ _ _) as [[mem [ms1 totals]]|e].
    + set (w1 := emit (EvSave i) _).
      specialize (IH ms1 (S i) w1). cbn zeta in IH.
      destruct (scan _ _ _ _ _ _ _ _ w1) as [[ms|e] w']; cbn in IH |- *.
      * rewrite IH. unfold fetch_save. cbn. by rewrite <- !app_assoc.
      * destruct IH as (n & Hn & Hlog & Hdocs). exists (S n).
        split; [lia|]. split.
        -- rewrite Hlog. unfold fetch_save. cbn.
           rewrite <- !app_assoc. cbn. by rewrite Nat.add_succ_r.
        -- intros j Hj. rewrite Hdocs by lia. cbn.
           apply list_lookup_alter_ne. lia.
    + cbn. exists 0%nat. split; [lia|]. split; [|done].
      by rewrite Nat.add_0_r.
Qed.

(** X7: a named run saves the samples one at a time, each right after it
    was evaluated and before the next one is fetched, and records the
    evaluation last.  When the evaluation of the sample at position [n]
    raises, the run raises the same exception: the [n] samples before it
    were saved, this one and the later ones are as they were, the later
    ones were not even fetched, and nothing was recorded. *)
Theorem samples_saved_one_by_one (pred_field gt_field k : string)
    (classes : option (list string)) (missing : string)
    (method : option string) (config : option Config)
    (kwargs : list (string * value)) (cfg : Config) (eval_method : EvalMethod)
    (w : World) :
  let pf := targets_frames (coll w) pred_field in
  let items := select_fields [gt_field; pred_field] <$> docs (coll w) in
  let run := evaluate_detections pred_field gt_field (Some k) classes missing
               method config kwargs w in
  _parse_config config method kwargs = Ok cfg →
  build cfg = Ok eval_method →
  (∀ matches,
     (scan eval_method pf pred_field gt_field (Some k) [] 0 items w).1
     = Ok matches →
     log run.2
     = log w ++ fetch_save 0 (length (docs (coll w))) ++ [EvRecord k]) ∧
  (∀ e,
     (scan eval_method pf pred_field gt_field (Some k) [] 0 items w).1
     = Raise e →
     run.1 = Raise e ∧
     ∃ n, (n < length (docs (coll w)))%nat ∧
          log run.2 = log w ++ fetch_save 0 n ++ [EvFetch n] ∧
          ∀ j, (n ≤ j)%nat → docs (coll run.2) !! j = docs (coll w) !! j).
Proof.
  cbn zeta. intros Hcfg Hbuild.
  rewrite evaluate_detections_phases, Hcfg, Hbuild.
  pose proof (named_scan_log eval_method (targets_frames (coll w) pred_field)
                pred_field gt_field k [] 0
                (select_fields [gt_field; pred_field] <$> docs (coll w)) w) as Hlog.
  cbn zeta in Hlog. rewrite length_fmap in Hlog.
  destruct (scan _ _ _ _ _ _ _ _ w) as [[ms|e] w1]; cbn in Hlog |- *.
  - split; [|done]. intros _ _. rewrite Hlog. by rewrite <- app_assoc.
  - split; [done|]. intros e' [= <-]. split; [done|].
    destruct Hlog as (n & Hn & Hl & Hdocs). exists n.
    split; [done|]. split; [done|]. intros j Hj. apply Hdocs. lia.
Qed.

(** ** Clearing after a run *)

Lemma cleared_totals eval_key pred_field gt_field w :
  Forall (fun s => ∀ f, f ∈ total_fields eval_key → sample_fields s !! f = None)
    (docs (coll (cleared eval_key pred_field gt_field w))).
Proof.
  unfold cleared.
  destruct (_handle_frame_field (coll w) pred_field) as [pred_name frame_scoped].
  destruct (_handle_frame_field (coll w) gt_field) as [gt_name gt_scoped].
  destruct frame_scoped; cbn -[delete_keys detection_fields total_fields];
    apply Forall_fmap, Forall_forall; intros s _ f Hf; cbn -[delete_keys];
    rewrite lookup_delete_keys; by rewrite bool_decide_eq_true_2.
Qed.

(** X8: after a named run whose scan completed, also one that raised
    while building the results, clearing under the same key succeeds: the
    EvalInfo entries are those of before the run, without the key, and no
    sample holds any of the three totals.  After a named run whose scan
    was aborted, under a key with no entry before the run, clearing raises
    the not-found error and removes nothing: the totals saved before the
    abort stay. *)
Theorem clear_after_evaluate (pred_field gt_field k : string)
    (classes : option (list string)) (missing : string)
    (method : option string) (config : option Config)
    (kwargs : list (string * value)) (cfg : Config) (eval_method : EvalMethod)
    (w : World) :
  let pf := targets_frames (coll w) pred_field in
  let items := select_fields [gt_field; pred_field] <$> docs (coll w) in
  let run := evaluate_detections pred_field gt_field (Some k) classes missing
               method config kwargs w in
  _parse_config config method kwargs = Ok cfg →
  build cfg = Ok eval_method →
  (∀ matches,
     (scan eval_method pf pred_field gt_field (Some k) [] 0 items w).1
     = Ok matches →
     ∃ w', clear_detection_evaluation k run.2 = (Ok (), w') ∧
           evaluations (coll w') = delete k (evaluations (coll w)) ∧
           Forall (fun s => ∀ f, f ∈ total_fields k → sample_fields s !! f = None)
             (docs (coll w'))) ∧
  (∀ e,
     (scan eval_method pf pred_field gt_field (Some k) [] 0 items w).1
     = Raise e →
     evaluations (coll w) !! k = None →
     clear_detection_evaluation k run.2 = (Raise (NotFoundError k), run.2)).
Proof.
  cbn zeta. intros Hcfg Hbuild.
  rewrite evaluate_detections_phases, Hcfg, Hbuild.
  pose proof (scan_frame eval_method (targets_frames (coll w) pred_field)
                pred_field gt_field (Some k) [] 0
                (select_fields [gt_field; pred_field] <$> docs (coll w)) w) as Hf.
  destruct (scan _ _ _ _ _ _ _ _ w) as [[ms|e] w1]; cbn in Hf |- *;
    destruct Hf as (Hev & _).
  - split; [|done]. intros _ _.
    eexists. split.
    + apply (clear_recorded k pred_field gt_field cfg). cbn.
      apply lookup_insert_eq.
    + split; [|apply cleared_totals].
      rewrite cleared_evaluations. cbn. by rewrite delete_insert_eq, Hev.
  - split; [done|]. intros _ _ Hnone. apply clear_unrecorded. by rewrite Hev.
Qed.

(** ** Runs without a key *)

(** X9: the outcome of a run does not depend on the EvalInfo entries or on
    the calls made before it, and a run without a key can be repeated: run
    again on the world it left, it has the same outcome and the collection
    is still as it was. *)
Theorem unnamed_run_repeatable (pred_field gt_field : string)
    (eval_key : option string) (classes : option (list string))
    (missing : string) (method : option string) (config : option Config)
    (kwargs : list (string * value)) (w w' : World) :
  (media_type (coll w) = media_type (coll w') →
   docs (coll w) = docs (coll w') →
   (evaluate_detections pred_field gt_field eval_key classes missing method
      config kwargs w).1
   = (evaluate_detections pred_field gt_field eval_key classes missing method
        config kwargs w').1) ∧
  let run := evaluate_detections pred_field gt_field None classes missing
               method config kwargs w in
  let again := evaluate_detections pred_field gt_field None classes missing
                 method config kwargs run.2 in
  again.1 = run.1 ∧ coll again.2 = coll w.
Proof.
  assert (∀ ek w1 w2,
            media_type (coll w1) = media_type (coll w2) →
            docs (coll w1) = docs (coll w2) →
            (evaluate_detections pred_field gt_field ek classes missing method
               config kwargs w1).1
            = (evaluate_detections pred_field gt_field ek classes missing method
                 config kwargs w2).1) as Hsame.
  { intros ek w1 w2 Hm Hd. rewrite !evaluate_detections_phases.
    destruct (_parse_config config method kwargs) as [cfg|e]; [|done].
    destruct (build cfg) as [eval_method|e]; [|done].
    unfold targets_frames. rewrite Hm, Hd.
    pose proof (scan_outcome_world eval_method
                  (bool_decide (media_type (coll w2) = VIDEO)
                   && String.prefix _FRAMES_PREFIX pred_field)
                  pred_field gt_field ek [] 0
                  (select_fields [gt_field; pred_field] <$> docs (coll w2))
                  w1 w2) as Ho.
    destruct (scan _ _ _ _ _ _ _ _ w1) as [[ms1|e1] w1'],
             (scan _ _ _ _ _ _ _ _ w2) as [[ms2|e2] w2'];
      cbn in Ho |- *; congruence. }
  assert (∀ w1, coll (evaluate_detections pred_field gt_field None classes
                        missing method config kwargs w1).2 = coll w1) as Hkeep.
  { intros w1. rewrite evaluate_detections_phases.
    destruct (_parse_config config method kwargs) as [cfg|e]; [|done].
    destruct (build cfg) as [eval_method|e]; [|done].
    pose proof (scan_unnamed eval_method (targets_frames (coll w1) pred_field)
                  pred_field gt_field [] 0
                  (select_fields [gt_field; pred_field] <$> docs (coll w1)) w1) as Hu.
    destruct (scan _ _ _ _ _ _ _ _ w1) as [[ms|e] w1']; cbn in Hu |- *; tauto. }
  split; [apply Hsame|]. cbn zeta. split.
  - apply Hsame; by rewrite Hkeep.
  - by rewrite !Hkeep.
Qed.

(** ** What a run leaves alone *)

Lemma evaluate_unit_other_fields eval_method pred_field gt_field eval_key st
    image image' st' f :
  evaluate_unit eval_method pred_field gt_field eval_key st image = Ok (image', st') →
  f ≠ gt_field → f ≠ pred_field → image' !! f = image !! f.
Proof.
  destruct st as [acc [[tp fp] fn]]. unfold evaluate_unit.
  destruct (getitem image gt_field) as [gts|e]; [|done]; cbn.
  destruct (getitem image pred_field) as [preds|e]; [|done]; cbn.
  destruct (eval_method gts preds eval_key) as [[[ms gts'] preds']|e]; [|done]; cbn.
  destruct (_tally_matches ms) as [[tp' fp'] fn'].
  intros [= <- _] Hgt Hpred. by rewrite !lookup_insert_ne.
Qed.

Lemma evaluate_units_other_fields eval_method pred_field gt_field eval_key st
    images images' st' :
  evaluate_units eval_method pred_field gt_field eval_key st images
  = Ok (images', st') →
  Forall2 (fun image image' =>
             ∀ f, f ≠ gt_field → f ≠ pred_field → image' !! f = image !! f)
    images images'.
Proof.
  revert st images' st'. induction images as [|image images IH];
    intros st images' st'; cbn [evaluate_units].
  - intros [= <- _]. constructor.
  - destruct (evaluate_unit _ _ _ _ st image) as [[image1 st1]|e] eqn:H1; [|done].
    cbn. destruct (evaluate_units _ _ _ _ st1 images) as [[images1 st2]|e] eqn:H2;
      [|done].
    cbn. intros [= <- _]. constructor; [|by eapply IH].
    intros f. by eapply evaluate_unit_other_fields.
Qed.

Lemma evaluate_sample_other_fields eval_method pf pred_field gt_field eval_key
    acc item mem st f :
  evaluate_sample eval_method pf pred_field gt_field eval_key acc item
  = Ok (mem, st) →
  f ≠ gt_field → f ≠ pred_field →
  sample_fields mem !! f = sample_fields item !! f.
Proof.
  unfold evaluate_sample.
  destruct (evaluate_units _ _ _ _ _ _) as [[images st1]|e] eqn:Hu; [|done].
  cbn. intros [= <- _] Hgt Hpred.
  apply evaluate_units_other_fields in Hu. destruct pf; cbn in *; [done|].
  apply Forall2_cons_inv_l in Hu as (image' & rest & Himage & _ & ->).
  cbn. by apply Himage.
Qed.

Lemma keep_fields_other fields (d : gmap string value) f :
  f ∉ fields → keep_fields fields d !! f = None.
Proof.
  intros Hf. apply map_lookup_filter_None. right. by intros x _.
Qed.

Lemma scan_same_outside eval_method pf pred_field gt_field eval_key acc i items
    w base :
  Forall (fun item => ∀ f, f ≠ gt_field → f ≠ pred_field →
                           sample_fields item !! f = None) items →
  Forall2 (same_outside (written_fields pred_field gt_field eval_key))
    base (docs (coll w)) →
  Forall2 (same_outside (written_fields pred_field gt_field eval_key))
    base (docs (coll (scan eval_method pf pred_field gt_field eval_key acc i
                        items w).2)).
Proof.
  revert acc i w. induction items as [|s items IH]; intros acc i w Hitems Hbase;
    [done|].
  apply Forall_cons in Hitems as [Hs Hitems].
  rewrite scan_cons, scan_sample_cases.
  destruct (evaluate_sample _ _ _ _ _ _ _) as [[mem [ms1 totals]]|e] eqn:He;
    [|done].
  assert (∀ w1, Forall2 (same_outside (written_fields pred_field gt_field eval_key))
                  base (docs (coll w1)) →
                Forall2 (same_outside (written_fields pred_field gt_field eval_key))
                  base (docs (coll
                    (let (r, w') :=
                       scan eval_method pf pred_field gt_field eval_key ms1
                         (S i) items w1 in
                     match r with
                     | Ok matches => (Ok matches, w')
                     | Raise e => (Raise e, w')
                     end).2))) as Hrest.
  { intros w1 H1. specialize (IH ms1 (S i) w1 Hitems H1).
    by destruct (scan _ _ _ _ _ _ _ _ w1) as [[ms|e] w']. }
  destruct eval_key as [k|].
  - specialize (Hrest (emit (EvSave i)
                         (set_docs (alter (stored (with_totals k totals mem)) i)
                            (emit (EvFetch i) w)))).
    destruct (scan _ _ _ _ _ _ _ _ _) as [[ms|e] w']; apply Hrest; cbn;
      (apply Forall2_alter_r; [done|]);
      intros x y _ _ Hxy f Hf; rewrite <- (Hxy f Hf);
      destruct totals as [[tp fp] fn]; cbn;
      unfold written_fields, total_fields in Hf;
      rewrite ?elem_of_app, !elem_of_cons, elem_of_nil in Hf;
      (rewrite lookup_union_r; [done|]);
      rewrite !lookup_insert_ne by (intros <-; tauto);
      rewrite (evaluate_sample_other_fields _ _ _ _ _ _ _ _ _ f He)
        by (intros ->; tauto);
      apply Hs; intros ->; tauto.
  - specialize (Hrest (emit (EvFetch i) w)).
    destruct (scan _ _ _ _ _ _ _ _ _) as [[ms|e] w']; by apply Hrest.
Qed.

(** X10: whatever its outcome, a run leaves the media type and the number
    of samples as they were, and on every sample every field but the two
    label fields and, for a named run, the three totals. *)
Theorem run_writes_only_its_fields (pred_field gt_field : string)
    (eval_key : option string) (classes : option (list string))
    (missing : string) (method : option string) (config : option Config)
    (kwargs : list (string * value)) (w : World) :
  let run := evaluate_detections pred_field gt_field eval_key classes missing
               method config kwargs w in
  media_type (coll run.2) = media_type (coll w) ∧
  length (docs (coll run.2)) = length (docs (coll w)) ∧
  Forall2 (same_outside (written_fields pred_field gt_field eval_key))
    (docs (coll w)) (docs (coll run.2)).
Proof.
  cbn zeta. rewrite evaluate_detections_phases.
  assert (Forall2 (same_outside (written_fields pred_field gt_field eval_key))
            (docs (coll w)) (docs (coll w))) as Hrefl
    by (by apply Forall_Forall2_diag, Forall_forall).
  destruct (_parse_config config method kwargs) as [cfg|e]; [|done].
  destruct (build cfg) as [eval_method|e]; [|done].
  pose proof (scan_frame eval_method (targets_frames (coll w) pred_field)
                pred_field gt_field eval_key [] 0
                (select_fields [gt_field; pred_field] <$> docs (coll w)) w)
    as (_ & Hm & _).
  assert (Forall2 (same_outside (written_fields pred_field gt_field eval_key))
            (docs (coll w))
            (docs (coll (scan eval_method (targets_frames (coll w) pred_field)
                           pred_field gt_field eval_key [] 0
                           (select_fields [gt_field; pred_field] <$> docs (coll w))
                           w).2))) as Hd.
  { apply scan_same_outside; [|done].
    apply Forall_fmap, Forall_forall. intros s _ f Hgt Hpred. cbn.
    apply keep_fields_other. rewrite !elem_of_cons, elem_of_nil. tauto. }
  destruct (scan _ _ _ _ _ _ _ _ w) as [[ms|e] w1]; cbn in Hm, Hd |- *.
  - assert (docs (coll (recorded eval_key pred_field gt_field cfg w1))
            = docs (coll w1)) as -> by (by destruct eval_key).
    split; [by destruct eval_key|].
    split; [symmetry; by eapply Forall2_length|done].
  - split; [done|]. split; [symmetry; by eapply Forall2_length|done].
Qed.

End MoreProperties.

Lemma tally_additive_order_free_witness :
  scenario_matches ≡ₚ reverse scenario_matches ∧
  _tally_matches scenario_matches = _tally_matches (reverse scenario_matches).
Proof.
  assert (scenario_matches ≡ₚ reverse scenario_matches) as Hperm
    by (symmetry; apply reverse_Permutation).
  split; [exact Hperm|].
  exact (proj2 (tally_additive_order_free scenario_matches
                  (reverse scenario_matches)) Hperm).
Defined.

Lemma results_label_sequences_witness :
  scenario_matches ≠ [] ∧
  @DetectionResults example_imports scenario_matches None "none"
  = Ok ([Some "cat"; Some "dog"; None; Some "cat"],
        [Some "cat"; None; Some "cat"; Some "dog"]).
Proof.
  assert (scenario_matches ≠ []) as Hne by discriminate.
  split; [exact Hne|].
  exact (proj2 (@results_label_sequences example_imports scenario_matches
                  None "none") Hne).
Defined.


Lemma results_built_from_all_matches_witness :
  let scanned :=
    (scan positional_method
       (@targets_frames example_imports (coll example_world) "predictions")
       "predictions" "ground_truth" (Some "eval") [] 0
       (select_fields ["ground_truth"; "predictions"] <$> docs (coll example_world))
       example_world).1 in
  scanned = Ok [(Some "cat", Some "cat"); (Some "dog", None); (None, Some "dog")] ∧
  ∃ per_item,
    [(Some "cat", Some "cat"); (Some "dog", None); (None, Some "dog")]
    = concat per_item ∧
    _tally_matches [(Some "cat", Some "cat"); (Some "dog", None); (None, Some "dog")]
    = sum3 (_tally_matches <$> per_item).
Proof.
  cbn zeta.
  assert ((scan positional_method
             (@targets_frames example_imports (coll example_world) "predictions")
             "predictions" "ground_truth" (Some "eval") [] 0
             (select_fields ["ground_truth"; "predictions"]
                <$> docs (coll example_world)) example_world).1
          = Ok [(Some "cat", Some "cat"); (Some "dog", None); (None, Some "dog")])
    as Hscan by (vm_compute; reflexivity).
  split; [exact Hscan|].
  destruct (@results_built_from_all_matches example_imports "predictions"
              "ground_truth" (Some "eval") None "none" None None []
              example_config positional_method _ example_world
              eq_refl eq_refl Hscan)
    as (_ & per_item & _ & Hconcat & Htally).
  exists per_item. split; [exact Hconcat|exact Htally].
Defined.

Lemma abstract_method_raises_witness :
  (@evaluate_detections abstract_imports "predictions" "ground_truth"
     (Some "eval") None "none" None None [] example_world)
  = (Raise (NotImplementedError "subclass must implement evaluate_image"),
     emit (EvFetch 0) example_world).
Proof.
  apply (@abstract_method_raises abstract_imports "predictions" "ground_truth"
           (Some "eval") None "none" None None [] example_config example_world
           (example_sample ["cat"; "dog"] ["cat"])
           [example_sample [] ["dog"]]
           (keep_fields ["ground_truth"; "predictions"]
              (sample_fields (example_sample ["cat"; "dog"] ["cat"])))
           []
           (VList [VStr "cat"; VStr "dog"]) (VList [VStr "cat"]));
    vm_compute; reflexivity.
Defined.

Lemma samples_saved_one_by_one_witness :
  log (@evaluate_detections example_imports "predictions" "ground_truth"
         (Some "eval") None "none" None None [] example_world).2
  = [EvFetch 0; EvSave 0; EvFetch 1; EvSave 1; EvRecord "eval"] ∧
  ∃ n, (n < 2)%nat ∧
       log (@evaluate_detections picky_imports "predictions" "ground_truth"
              (Some "eval") None "none" None None [] example_world).2
       = fetch_save 0 n ++ [EvFetch n].
Proof.
  split.
  - assert ((scan positional_method
               (@targets_frames example_imports (coll example_world) "predictions")
               "predictions" "ground_truth" (Some "eval") [] 0
               (select_fields ["ground_truth"; "predictions"]
                  <$> docs (coll example_world)) example_world).1
            = Ok [(Some "cat", Some "cat"); (Some "dog", None); (None, Some "dog")])
      as Hscan by (vm_compute; reflexivity).
    exact (proj1 (@samples_saved_one_by_one example_imports "predictions"
                    "ground_truth" "eval" None "none" None None []
                    example_config positional_method example_world
                    eq_refl eq_refl) _ Hscan).
  - assert ((scan picky_method
               (@targets_frames picky_imports (coll example_world) "predictions")
               "predictions" "ground_truth" (Some "eval") [] 0
               (select_fields ["ground_truth"; "predictions"]
                  <$> docs (coll example_world)) example_world).1
            = Raise (ValueError "no ground truth"))
      as Hscan by (vm_compute; reflexivity).
    destruct (proj2 (@samples_saved_one_by_one picky_imports "predictions"
                       "ground_truth" "eval" None "none" None None []
                       example_config picky_method example_world
                       eq_refl eq_refl) _ Hscan)
      as (_ & n & Hn & Hlog & _).
    exists n. split; [exact Hn|exact Hlog].
Defined.

Lemma clear_after_evaluate_witness :
  (∃ w', @clear_detection_evaluation example_imports "eval" evaluated_world
         = (Ok (), w') ∧
         evaluations (coll w') = delete "eval" (evaluations (coll example_world))) ∧
  let aborted := (@evaluate_detections picky_imports "predictions" "ground_truth"
                    (Some "eval") None "none" None None [] example_world).2 in
  @clear_detection_evaluation picky_imports "eval" aborted
  = (Raise (NotFoundError "eval"), aborted).
Proof.
  split.
  - assert ((scan positional_method
               (@targets_frames example_imports (coll example_world) "predictions")
               "predictions" "ground_truth" (Some "eval") [] 0
               (select_fields ["ground_truth"; "predictions"]
                  <$> docs (coll example_world)) example_world).1
            = Ok [(Some "cat", Some "cat"); (Some "dog", None); (None, Some "dog")])
      as Hscan by (vm_compute; reflexivity).
    destruct (proj1 (@clear_after_evaluate example_imports "predictions"
                       "ground_truth" "eval" None "none" None None []
                       example_config positional_method example_world
                       eq_refl eq_refl) _ Hscan)
      as (w' & Hclear & Hev & _).
    exists w'. split; [exact Hclear|exact Hev].
  - assert ((scan picky_method
               (@targets_frames picky_imports (coll example_world) "predictions")
               "predictions" "ground_truth" (Some "eval") [] 0
               (select_fields ["ground_truth"; "predictions"]
                  <$> docs (coll example_world)) example_world).1
            = Raise (ValueError "no ground truth"))
      as Hscan by (vm_compute; reflexivity).
    exact (proj2 (@clear_after_evaluate picky_imports "predictions"
                    "ground_truth" "eval" None "none" None None []
                    example_config picky_method example_world
                    eq_refl eq_refl) _ Hscan eq_refl).
Defined.

Lemma unnamed_run_repeatable_witness :
  media_type (coll example_world) = media_type (coll rerun_world) ∧
  docs (coll example_world) = docs (coll rerun_world) ∧
  (@evaluate_detections example_imports "predictions" "ground_truth"
     (Some "eval") None "none" None None [] example_world).1
  = (@evaluate_detections example_imports "predictions" "ground_truth"
       (Some "eval") None "none" None None [] rerun_world).1.
Proof.
  split; [reflexivity|]. split; [reflexivity|].
  exact (proj1 (@unnamed_run_repeatable example_imports "predictions"
                  "ground_truth" (Some "eval") None "none" None None []
                  example_world rerun_world) eq_refl eq_refl).
Defined.
